(** * livefile: a JSON-backed value cached in memory and refreshed from its file

    Shallow embedding of [statefile.go] (package [livefile], the revision with
    the injectable file system and the loaded callback), of [opts.go], and of
    the [WriteFS] interface with its default, the file system of the
    operating system.

    A method of [*LiveFile[T]] becomes a computation over the receiver and the
    world (files, directories, clock, trace of calls):
    [M T A := LiveFile T -> World T -> outcome T A].  A Go panic is the
    outcome [Panicked]; a returned [error] is a value of type [option error].
    The field [fs] of [LiveFile] is the world the method runs in.

    The mutex of [LiveFile] is not represented: one method runs from its
    [Lock] to its [Unlock] without another method of the same controller in
    between, which is what the lock provides inside one process.  Other
    processes are not held back by it; what they do to the file while a
    method runs is part of the world.  The [context.Context] argument only
    reaches the callbacks and is left out. *)

From Stdlib Require Import ZArith String Ascii List Lia.
From Stdlib Require Import Init.Byte.
From stdpp Require Import base option list gmap strings.

Open Scope string_scope.
Open Scope list_scope.

(** ** Go values used by the package *)

(** [time.Time], counted from the zero [time.Time]. *)
Abbreviation time_Time := Z (only parsing).

Definition zero_Time : time_Time := 0%Z.

(** [t.After(u)] *)
Definition After (t u : time_Time) : bool := (u <? t)%Z.

(** [error] values: the two sentinels the code tests for, every other error
    of a collaborator, and [fmt.Errorf("...: %w", err)]. *)
Inductive error : Type :=
| ErrNotExist
| EOF
| Other (msg : string)
| Wrapped (prefix : string) (err : error).

#[global] Instance error_eq_dec : EqDecision error.
Proof. solve_decision. Defined.

(** [errors.Is(err, target)]: [err] or an error it wraps is [target]. *)
Fixpoint errors_Is (err target : error) : bool :=
  bool_decide (err = target) ||
  match err with
  | Wrapped _ e => errors_Is e target
  | _ => false
  end.

(** [fmt.Errorf(prefix + ": %w", err)] *)
Definition Errorf (prefix : string) (err : error) : error := Wrapped prefix err.

(** What a panic carries: the error given to [panic(err)], or the runtime
    error of a method call through a nil interface or a nil func. *)
Inductive panic : Type :=
| PanicErr (err : error)
| NilDereference.

(** An error handler either returns to the code that called it or panics. *)
Inductive handled : Type :=
| Returns
| Panics (p : panic).

(** [DefaultErrorHandler] *)
Definition DefaultErrorHandler (err : error) : handled := Panics (PanicErr err).

(** ** Paths *)

(** [filepath.IsAbs] on a Unix path *)
Definition filepath_IsAbs (p : string) : bool := String.prefix "/" p.

(** [filepath.Join(base, p)] for two non-empty clean elements *)
Definition filepath_Join (base p : string) : string := base +:+ "/" +:+ p.

(** The part of [s] before its last slash, if it has a slash. *)
Fixpoint before_last_slash (s : string) : option string :=
  match s with
  | EmptyString => None
  | String c rest =>
      match before_last_slash rest with
      | Some d => Some (String c d)
      | None => if Ascii.eqb c "/" then Some EmptyString else None
      end
  end.

(** [path.Dir] on a clean path *)
Definition path_Dir (p : string) : string :=
  match before_last_slash p with
  | None => "."
  | Some EmptyString => "/"
  | Some d => d
  end.

(** ** The file system behind [DefaultFileSystem] *)

Record file_node : Type := mk_node { content : list byte; mtime : time_Time }.

(** [fs.FileInfo], as far as the code reads it *)
Record FileInfo : Type := mk_info { Size : Z; ModTime : time_Time }.

(** An open file: the path it was opened at, its offset, and whether it was
    opened by [OpenFile] for reading and writing. *)
Record File : Type := mk_File { name : string; offset : nat; writable : bool }.

Definition O_RDWR : Z := 2.
Definition O_CREATE : Z := 64.

(** The calls the package makes on [WriteFS], [ReadSeekFile] and [WriteFile]. *)
Inductive fs_call : Type :=
| call_Open
| call_OpenFile (flag : Z)
| call_MkdirAll
| call_Stat
| call_Seek (off : nat)
| call_Read
| call_Truncate (size : nat)
| call_Write (off : nat) (data : list byte)
| call_Sync
| call_Close.

(** [write_at old off data]: the bytes of a file after [data] is written at
    offset [off]; a gap past the end of [old] reads as zero bytes. *)
Definition write_at (old : list byte) (off : nat) (data : list byte) : list byte :=
  take off old ++ replicate (off - length old) x00 ++ data
    ++ drop (off + length data) old.

(** [resize old n]: the bytes of a file after [Truncate(n)]. *)
Definition resize (old : list byte) (n : nat) : list byte :=
  take n old ++ replicate (n - length old) x00.

(** ** JSON for the state type

    [encoding/json] is a collaborator.  [json_Marshal prefix indent v] is
    what an [Encoder] with [SetIndent(prefix, indent)] produces for [v]
    before the final newline.  [json_Decode data cur] is one
    [Decoder.Decode(&cur)] over a reader that holds [data]. *)

Record decoded (T : Type) : Type := mk_decoded {
  dec_val : T;              (* the target after the call *)
  dec_err : option error;   (* the error of Decode *)
  dec_off : nat;            (* decoder.InputOffset() after the call *)
  dec_read : nat            (* bytes the decoder took from the reader *)
}.
Arguments mk_decoded {T}.
Arguments dec_val {T}.
Arguments dec_err {T}.
Arguments dec_off {T}.
Arguments dec_read {T}.

Class JSON (T : Type) : Type := {
  zero : T;   (* var zero T *)
  json_Marshal : string → string → T → error + list byte;
  json_Decode : list byte → T → decoded T
}.

(** ** The controller *)

Record LiveFile (T : Type) : Type := mk_LiveFile {
  path : string;
  lastModTime : time_Time;
  cached : T;
  defaultFunc : option (unit → T);
  errHandler : error → handled;
  onLoaded : option (T → T)
}.
Arguments mk_LiveFile {T}.
Arguments path {T}.
Arguments lastModTime {T}.
Arguments cached {T}.
Arguments defaultFunc {T}.
Arguments errHandler {T}.
Arguments onLoaded {T}.

Definition set_lastModTime {T} (t : time_Time) (lf : LiveFile T) : LiveFile T :=
  mk_LiveFile (path lf) t (cached lf) (defaultFunc lf) (errHandler lf) (onLoaded lf).

Definition set_cached {T} (v : T) (lf : LiveFile T) : LiveFile T :=
  mk_LiveFile (path lf) (lastModTime lf) v (defaultFunc lf) (errHandler lf) (onLoaded lf).

Definition set_defaultFunc {T} (f : option (unit → T)) (lf : LiveFile T) : LiveFile T :=
  mk_LiveFile (path lf) (lastModTime lf) (cached lf) f (errHandler lf) (onLoaded lf).

Definition set_errHandler {T} (f : error → handled) (lf : LiveFile T) : LiveFile T :=
  mk_LiveFile (path lf) (lastModTime lf) (cached lf) (defaultFunc lf) f (onLoaded lf).

Definition set_onLoaded {T} (f : option (T → T)) (lf : LiveFile T) : LiveFile T :=
  mk_LiveFile (path lf) (lastModTime lf) (cached lf) (defaultFunc lf) (errHandler lf) f.

(** ** The world a method runs in *)

(** What can be observed of a run: every call on the file system with the
    path and the error it returned, every error given to the error handler,
    and every value given to the loaded callback. *)
Inductive event (T : Type) : Type :=
| ev_io (c : fs_call) (p : string) (err : option error)
| ev_errHandler (err : error)
| ev_onLoaded (v : T).
Arguments ev_io {T}.
Arguments ev_errHandler {T}.
Arguments ev_onLoaded {T}.

(** What other processes do to the files while a method runs: the entry
    [(n, p, node)] replaces the file at [p] by [node] ([None] removes it)
    just before the [n]-th call of the run reaches the file system. *)
Definition interference : Type := list (nat * string * option file_node).

Definition meddle (n : nat) (acts : interference) (fm : gmap string file_node)
    : gmap string file_node :=
  foldl (fun fm a =>
           match a with
           | (k, p, node) =>
               if Nat.eqb k n then
                 match node with
                 | Some nd => <[p := nd]> fm
                 | None => delete p fm
                 end
               else fm
           end) fm acts.

(** [fault n c] is the error the operating system makes the [n]-th call fail
    with, when that call is [c]; [None] lets the call take its course. *)
Record World (T : Type) : Type := mk_World {
  files : gmap string file_node;
  dirs : gset string;
  clock : time_Time;
  fault : nat → fs_call → option error;
  others : interference;
  calls : nat;
  trace : list (event T)
}.
Arguments mk_World {T}.
Arguments files {T}.
Arguments dirs {T}.
Arguments clock {T}.
Arguments fault {T}.
Arguments others {T}.
Arguments calls {T}.
Arguments trace {T}.

Definition set_files {T} (fm : gmap string file_node) (w : World T) : World T :=
  mk_World fm (dirs w) (clock w) (fault w) (others w) (calls w) (trace w).

Definition set_dirs {T} (ds : gset string) (w : World T) : World T :=
  mk_World (files w) ds (clock w) (fault w) (others w) (calls w) (trace w).

(** The files as the next call finds them. *)
Definition arrive {T} (w : World T) : World T :=
  match others w with
  | [] => w
  | acts => set_files (meddle (calls w) acts (files w)) w
  end.

(** Append one event that is not a file-system call. *)
Definition note {T} (e : event T) (w : World T) : World T :=
  mk_World (files w) (dirs w) (clock w) (fault w) (others w) (calls w) (trace w ++ [e]).

(** Append one file-system call and count it. *)
Definition called {T} (c : fs_call) (p : string) (err : option error)
    (w : World T) : World T :=
  mk_World (files w) (dirs w) (clock w) (fault w) (others w) (S (calls w))
           (trace w ++ [ev_io c p err]).

Inductive outcome (T A : Type) : Type :=
| Done (a : A) (lf : LiveFile T) (w : World T)
| Panicked (p : panic) (lf : LiveFile T) (w : World T).
Arguments Done {T A}.
Arguments Panicked {T A}.

Definition M (T A : Type) : Type := LiveFile T → World T → outcome T A.

Definition ret {T A} (a : A) : M T A := fun lf w => Done a lf w.

Definition bind {T A B} (m : M T A) (k : A → M T B) : M T B :=
  fun lf w =>
    match m lf w with
    | Done a lf' w' => k a lf' w'
    | Panicked p lf' w' => Panicked p lf' w'
    end.

Definition raise {T A} (p : panic) : M T A := fun lf w => Panicked p lf w.

Declare Scope go_scope.
Delimit Scope go_scope with go.
Notation "x <- c1 ;; c2" := (bind c1 (fun x => c2))
  (at level 100, c1 at next level, right associativity) : go_scope.
Notation "c1 ;; c2" := (bind c1 (fun _ => c2))
  (at level 100, right associativity) : go_scope.

Definition outcome_lf {T A} (o : outcome T A) : LiveFile T :=
  match o with Done _ lf _ => lf | Panicked _ lf _ => lf end.

Definition outcome_world {T A} (o : outcome T A) : World T :=
  match o with Done _ _ w => w | Panicked _ _ w => w end.

Definition returned {T A} (o : outcome T A) : option A :=
  match o with Done a _ _ => Some a | Panicked _ _ _ => None end.

Open Scope go_scope.

(** ** Calls on the file system

    Every call finds the files as other processes left them, asks the world
    whether the operating system fails it, acts on the files, and is appended
    to the trace. *)

(** [lf.fs.Open(p)] *)
Definition fs_Open {T} (p : string) : M T (error + File) := fun lf w0 =>
  let w := arrive w0 in
  let r := match fault w (calls w) call_Open with
           | Some e => inl e
           | None =>
               match files w !! p with
               | Some _ => inr (mk_File p 0 false)
               | None => inl ErrNotExist
               end
           end in
  Done r lf (called call_Open p (match r with inl e => Some e | inr _ => None end) w).

(** [lf.fs.OpenFile(p, flag, 0o660)]: an existing file is opened as it is;
    with [O_CREATE] a missing file is created empty when its directory
    exists. *)
Definition fs_OpenFile {T} (p : string) (flag : Z) : M T (error + File) := fun lf w0 =>
  let w := arrive w0 in
  match fault w (calls w) (call_OpenFile flag) with
  | Some e => Done (inl e) lf (called (call_OpenFile flag) p (Some e) w)
  | None =>
      match files w !! p with
      | Some _ => Done (inr (mk_File p 0 true)) lf (called (call_OpenFile flag) p None w)
      | None =>
          if Z.testbit flag 6 && bool_decide (path_Dir p ∈ dirs w) then
            Done (inr (mk_File p 0 true)) lf
                 (called (call_OpenFile flag) p None
                    (set_files (<[p := mk_node [] (clock w)]> (files w)) w))
          else Done (inl ErrNotExist) lf (called (call_OpenFile flag) p (Some ErrNotExist) w)
      end
  end.

(** [lf.fs.MkdirAll(d, 0o770)] *)
Definition fs_MkdirAll {T} (d : string) : M T (option error) := fun lf w0 =>
  let w := arrive w0 in
  match fault w (calls w) call_MkdirAll with
  | Some e => Done (Some e) lf (called call_MkdirAll d (Some e) w)
  | None => Done None lf (called call_MkdirAll d None (set_dirs ({[d]} ∪ dirs w) w))
  end.

(** [file.Stat()]: on failure the [FileInfo] is nil. *)
Definition file_Stat {T} (file : File) : M T (option FileInfo * option error) := fun lf w0 =>
  let w := arrive w0 in
  let r := match fault w (calls w) call_Stat with
           | Some e => (None, Some e)
           | None =>
               match files w !! name file with
               | Some n => (Some (mk_info (Z.of_nat (length (content n))) (mtime n)), None)
               | None => (None, Some (Other "stale file handle"))
               end
           end in
  Done r lf (called call_Stat (name file) (snd r) w).

(** [file.Seek(off, io.SeekStart)] *)
Definition file_Seek {T} (file : File) (off : nat) : M T (File * option error) := fun lf w0 =>
  let w := arrive w0 in
  match fault w (calls w) (call_Seek off) with
  | Some e => Done (file, Some e) lf (called (call_Seek off) (name file) (Some e) w)
  | None => Done (mk_File (name file) off (writable file), None) lf
                 (called (call_Seek off) (name file) None w)
  end.

(** [file.Truncate(size)]: the offset of the handle stays where it is. *)
Definition file_Truncate {T} (file : File) (size : nat) : M T (option error) := fun lf w0 =>
  let w := arrive w0 in
  match fault w (calls w) (call_Truncate size) with
  | Some e => Done (Some e) lf (called (call_Truncate size) (name file) (Some e) w)
  | None =>
      match files w !! name file with
      | Some n =>
          Done None lf
               (called (call_Truncate size) (name file) None
                  (set_files (<[name file := mk_node (resize (content n) size) (clock w)]> (files w)) w))
      | None =>
          Done (Some (Other "stale file handle")) lf
               (called (call_Truncate size) (name file) (Some (Other "stale file handle")) w)
      end
  end.

(** [file.Write(data)]: at the offset of the handle, which then moves on. *)
Definition file_Write {T} (file : File) (data : list byte) : M T (File * option error) :=
  fun lf w0 =>
  let w := arrive w0 in
  let c := call_Write (offset file) data in
  match fault w (calls w) c with
  | Some e => Done (file, Some e) lf (called c (name file) (Some e) w)
  | None =>
      match files w !! name file with
      | Some n =>
          Done (mk_File (name file) (offset file + length data) (writable file), None) lf
               (called c (name file) None
                  (set_files (<[name file :=
                       mk_node (write_at (content n) (offset file) data) (clock w)]> (files w)) w))
      | None =>
          Done (file, Some (Other "stale file handle")) lf
               (called c (name file) (Some (Other "stale file handle")) w)
      end
  end.

(** [file.Sync()] *)
Definition file_Sync {T} (file : File) : M T (option error) := fun lf w0 =>
  let w := arrive w0 in
  let r := fault w (calls w) call_Sync in
  Done r lf (called call_Sync (name file) r w).

(** [file.Close()]; the code never looks at its result. *)
Definition file_Close {T} (file : File) : M T unit := fun lf w0 =>
  let w := arrive w0 in
  Done tt lf (called call_Close (name file) (fault w (calls w) call_Close) w).

(** [defer file.Close()]: the file is closed when the body returns and when
    it panics. *)
Definition defer_Close {T A} (file : File) (body : M T A) : M T A := fun lf w =>
  match body lf w with
  | Done a lf' w' =>
      match file_Close file lf' w' with
      | Done _ lf'' w'' => Done a lf'' w''
      | Panicked p lf'' w'' => Panicked p lf'' w''
      end
  | Panicked p lf' w' =>
      match file_Close file lf' w' with
      | Done _ lf'' w'' => Panicked p lf'' w''
      | Panicked _ lf'' w'' => Panicked p lf'' w''
      end
  end.

(** [err == io.EOF] *)
Definition is_EOF (err : option error) : bool :=
  match err with Some EOF => true | _ => false end.

(** What the reader told the decoder: the end of the input when the decoder
    reports [io.EOF], no error otherwise. *)
Definition read_error {T} (r : decoded T) : option error :=
  if is_EOF (dec_err r) then Some EOF else None.

(** [json.NewDecoder(file).Decode(&lf.cached)]: the decoder reads from the
    offset of the handle and decodes into the cached value. *)
Definition decoder_Decode {T} `{JSON T} (file : File) : M T (File * option error * nat) :=
  fun lf w0 =>
  let w := arrive w0 in
  match fault w (calls w) call_Read with
  | Some e => Done (file, Some e, 0) lf (called call_Read (name file) (Some e) w)
  | None =>
      let data := match files w !! name file with
                  | Some n => drop (offset file) (content n)
                  | None => []
                  end in
      let r := json_Decode data (cached lf) in
      Done (mk_File (name file) (offset file + min (dec_read r) (length data)) (writable file),
            dec_err r, dec_off r)
           (set_cached (dec_val r) lf)
           (called call_Read (name file) (read_error r) w)
  end.

(** [enc := json.NewEncoder(file); enc.SetIndent(prefix, indent);
    enc.Encode(v)]: nothing is written when marshalling fails; otherwise the
    text and a newline go out in one [Write]. *)
Definition encoder_Encode {T} `{JSON T} (prefix indent : string) (file : File) (v : T)
    : M T (File * option error) :=
  match json_Marshal prefix indent v with
  | inl e => ret (file, Some e)
  | inr bs => file_Write file (bs ++ [x0a])
  end.

(** ** statefile.go *)

(** [lf.errHandler(ctx, err)] *)
Definition call_errHandler {T} (err : error) : M T unit := fun lf w =>
  match errHandler lf err with
  | Returns => Done tt lf (note (ev_errHandler err) w)
  | Panics p => Panicked p lf (note (ev_errHandler err) w)
  end.

(** [lf.cached = lf.defaultFunc()] *)
Definition assign_default {T} : M T unit := fun lf w =>
  match defaultFunc lf with
  | Some d => Done tt (set_cached (d tt) lf) w
  | None => Panicked NilDereference lf w
  end.

(** [if lf.onLoaded != nil { lf.onLoaded(ctx, &lf.cached) }] *)
Definition call_onLoaded {T} : M T unit := fun lf w =>
  match onLoaded lf with
  | Some g => Done tt (set_cached (g (cached lf)) lf) (note (ev_onLoaded (cached lf)) w)
  | None => Done tt lf w
  end.

(** [forceLoad]: rewind, decode the file into the cached value, take the
    default for an empty file, and tell the handler or the loaded callback.
    The handle comes back with the offset the decoder left it at. *)
Definition forceLoad {T} `{JSON T} (file : File) : M T File :=
  s <- file_Seek file 0 ;;
  let '(file, err) := s in
  (match err with
   | Some e => call_errHandler (Errorf "failed to rewind file" e)
   | None => ret tt
   end) ;;
  d <- decoder_Decode file ;;
  let '(file, err, off) := d in
  (* File empty *)
  err <- (if is_EOF err && Nat.eqb off 0 then assign_default ;; ret None else ret err) ;;
  (match err with
   | Some e => call_errHandler (Errorf "invalid JSON" e)
   | None => call_onLoaded
   end) ;;
  ret file.

(** [loadIfUpdated]: load the file when it has content and is newer than
    the recorded modification time. There is no [return] after the handler
    call, so a failed [Stat] goes on with a nil [FileInfo]. *)
Definition loadIfUpdated {T} `{JSON T} (file : File) : M T File :=
  s <- file_Stat file ;;
  let '(stat, err) := s in
  (match err with
   | Some e => call_errHandler (Errorf "stat failed" e)
   | None => ret tt
   end) ;;
  match stat with
  | None => raise NilDereference          (* stat.Size() on a nil FileInfo *)
  | Some stat =>
      if (Size stat =? 0)%Z then ret file
      else
        let modTime := ModTime stat in
        fun lf =>
          (if After modTime (lastModTime lf) then
             file <- forceLoad file ;;
             (fun lf w => Done file (set_lastModTime modTime lf) w)
           else ret file) lf
  end.

(** [ensure]: the freshness check that opens every operation. A missing
    file is no error. The file is closed without [defer]. *)
Definition ensure {T} `{JSON T} : M T unit := fun lf =>
  (r <- fs_Open (path lf) ;;
   match r with
   | inl err =>
       if negb (errors_Is err ErrNotExist) then call_errHandler err else ret tt
   | inr file =>
       file <- loadIfUpdated file ;;
       file_Close file
   end) lf.

(** [f(&lf.cached)] for the function given to [View] *)
Definition call_view {T} (f : T → T) : M T unit := fun lf w =>
  Done tt (set_cached (f (cached lf)) lf) w.

(** [err = f(&lf.cached)] for the function given to [Update] *)
Definition call_update {T} (f : T → T * option error) : M T (option error) := fun lf w =>
  Done (snd (f (cached lf))) (set_cached (fst (f (cached lf))) lf) w.

(** [View] passes the current state to [f]. *)
Definition View {T} `{JSON T} (f : T → T) : M T unit :=
  ensure ;;
  call_view f.

(** [Peek] returns a copy of the current state. *)
Definition Peek {T} `{JSON T} : M T T :=
  ensure ;;
  fun lf w => Done (cached lf) lf w.

(** [Update], the lines that open the file for reading and writing: a
    missing directory is created and the file is opened again. *)
Definition Update_open {T} : M T (error + File) := fun lf =>
  (r <- fs_OpenFile (path lf) (Z.lor O_RDWR O_CREATE) ;;
   match r with
   | inl err =>
       if errors_Is err ErrNotExist then
         merr <- fs_MkdirAll (path_Dir (path lf)) ;;
         match merr with
         | Some e => ret (inl e)
         | None => fs_OpenFile (path lf) (Z.lor O_RDWR O_CREATE)
         end
       else ret (inl err)
   | inr file => ret (inr file)
   end) lf.

(** [Update], the lines after [defer file.Close()]. *)
Definition Update_file {T} `{JSON T} (f : T → T * option error) (file : File)
    : M T (option error) :=
  file <- loadIfUpdated file ;;
  err <- call_update f ;;
  match err with
  | Some e =>
      (* Update failed, rollback changes. *)
      forceLoad file ;;
      ret (Some e)
  | None =>
      err <- file_Truncate file 0 ;;
      match err with
      | Some e => ret (Some e)
      | None =>
          s <- (fun lf => encoder_Encode "" "  " file (cached lf) lf) ;;
          let '(file, err) := s in
          match err with
          | Some e => ret (Some e)
          | None =>
              err <- file_Sync file ;;
              match err with
              | Some e => ret (Some e)
              | None =>
                  s <- file_Stat file ;;
                  let '(stat, err) := s in
                  match err with
                  | None =>
                      match stat with
                      | Some stat =>
                          fun lf w => Done None (set_lastModTime (ModTime stat) lf) w
                      | None => raise NilDereference
                      end
                  | Some e => ret (Some e)
                  end
              end
          end
      end
  end.

(** [Update] calls [f] on the current state and writes the state to the
    file, or rolls back when [f] returns an error. *)
Definition Update {T} `{JSON T} (f : T → T * option error) : M T (option error) :=
  ensure ;;
  r <- Update_open ;;
  match r with
  | inl err => ret (Some err)
  | inr file => defer_Close file (Update_file f file)
  end.

(** ** opts.go

    The options set the corresponding field; each takes a function that is
    not nil. *)

Inductive Opt (T : Type) : Type :=
| WithDefault (f : unit → T)
| WithErrorHandler (f : error → handled)
| WithLoadedCallback (f : T → T).
Arguments WithDefault {T}.
Arguments WithErrorHandler {T}.
Arguments WithLoadedCallback {T}.

(** [opt(lf)] *)
Definition apply_Opt {T} (lf : LiveFile T) (opt : Opt T) : LiveFile T :=
  match opt with
  | WithDefault f => set_defaultFunc (Some f) lf
  | WithErrorHandler f => set_errHandler f lf
  | WithLoadedCallback f => set_onLoaded (Some f) lf
  end.

(** [New(path, opts...)], with the package variable [BaseDir] as an argument. *)
Definition New {T} `{JSON T} (BaseDir : string) (p : string) (opts : list (Opt T))
    : LiveFile T :=
  let p := if negb (filepath_IsAbs p) && negb (String.eqb BaseDir "")
           then filepath_Join BaseDir p else p in
  let lf := mk_LiveFile p zero_Time zero None DefaultErrorHandler None in
  let lf := fold_left apply_Opt opts lf in
  let lf := match defaultFunc lf with
            | None => set_defaultFunc (Some (fun _ => zero)) lf
            | Some _ => lf
            end in
  match defaultFunc lf with
  | Some d => set_cached (d tt) lf
  | None => lf
  end.

(** ** An instance: [LiveFile[bool]]

    The JSON text of a [bool] is [true] or [false]; the decoder skips white
    space, reports [io.EOF] with input offset zero when nothing but white
    space is left, and reports a syntax error for anything else. *)

Definition is_space (b : byte) : bool :=
  match b with
  | x20 | x09 | x0a | x0d => true
  | _ => false
  end.

Fixpoint skip_space (bs : list byte) : list byte :=
  match bs with
  | [] => []
  | b :: rest => if is_space b then skip_space rest else bs
  end.

Fixpoint has_prefix (lit bs : list byte) : bool :=
  match lit, bs with
  | [], _ => true
  | _ :: _, [] => false
  | a :: lit', b :: bs' => Byte.eqb a b && has_prefix lit' bs'
  end.

Definition bool_Marshal (prefix indent : string) (v : bool) : error + list byte :=
  inr (list_byte_of_string (if v then "true" else "false")).

Definition bool_Decode (data : list byte) (cur : bool) : decoded bool :=
  let rest := skip_space data in
  let ws := length data - length rest in
  match rest with
  | [] => mk_decoded cur (Some EOF) 0 (length data)
  | _ :: _ =>
      if has_prefix (list_byte_of_string "true") rest
      then mk_decoded true None (ws + 4) (length data)
      else if has_prefix (list_byte_of_string "false") rest
      then mk_decoded false None (ws + 5) (length data)
      else mk_decoded cur (Some (Other "invalid character")) 0 (length data)
  end.

#[global] Instance bool_JSON : JSON bool :=
  {| zero := false; json_Marshal := bool_Marshal; json_Decode := bool_Decode |}.

(** ** Worlds and controllers used in the examples *)

Definition no_fault : nat → fs_call → option error := fun _ _ => None.

Definition state_json : string := "/srv/app/state.json".

(** A directory without the file, the clock at 1000. *)
Definition fresh_disk : World bool :=
  mk_World ∅ {["/srv/app"]} 1000 no_fault [] 0 [].

(** The file holds [true] and was written at time 500. *)
Definition saved_disk : World bool :=
  mk_World {[state_json := mk_node (list_byte_of_string "true" ++ [x0a]) 500]}
           {["/srv/app"]} 1000 no_fault [] 0 [].



(** Every [Stat] fails. *)
Definition stat_fails : nat → fs_call → option error :=
  fun _ c => match c with call_Stat => Some (Other "input/output error") | _ => None end.

Definition broken_stat_disk : World bool :=
  mk_World {[state_json := mk_node (list_byte_of_string "true" ++ [x0a]) 500]}
           {["/srv/app"]} 1000 stat_fails [] 0 [].

(** The first call, when it is an [Open], fails for want of a descriptor. *)
Definition open_fails_once : nat → fs_call → option error :=
  fun n c =>
    match n, c with
    | 0, call_Open => Some (Other "too many open files")
    | _, _ => None
    end.

Definition busy_disk : World bool :=
  mk_World {[state_json := mk_node (list_byte_of_string "true" ++ [x0a]) 500]}
           {["/srv/app"]} 1000 open_fails_once [] 0 [].

(** A controller with default [false], and one whose error handler returns. *)
Definition controller : LiveFile bool :=
  New "" state_json [WithDefault (fun _ => false)].

Definition lenient_controller : LiveFile bool :=
  New "" state_json [WithDefault (fun _ => false); WithErrorHandler (fun _ => Returns)].

Definition watched_controller : LiveFile bool :=
  New "" state_json [WithDefault (fun _ => false); WithLoadedCallback (fun v => v)].

(** Update functions: one that flips the value and fails, one that stores a
    value and succeeds. *)
Definition flip_and_fail (v : bool) : bool * option error :=
  (negb v, Some (Other "something failed")).

Definition store {T} (v : T) (_ : T) : T * option error := (v, None).

(** The file holds [true] (written at 500); just before the sixth call of
    the run, the [OpenFile] of an update on a fresh controller, another
    process rewrites the file with the same text at time 600. *)
Definition raced_disk : World bool :=
  mk_World {[state_json := mk_node (list_byte_of_string "true" ++ [x0a]) 500]}
           {["/srv/app"]} 1000 no_fault
           [(5, state_json, Some (mk_node (list_byte_of_string "true" ++ [x0a]) 600))] 0 [].

(** The file holds nothing the decoder accepts, only a line feed. *)
Definition blank_disk : World bool :=
  mk_World {[state_json := mk_node [x0a] 500]} {["/srv/app"]} 1000 no_fault [] 0 [].

(** ** Vocabulary of the statements *)

(** The operating system fails no call. *)
Definition fault_free {T} (w : World T) : Prop := ∀ n c, fault w n c = None.

(** No call fails and no other process touches the files during the run. *)
Definition calm {T} (w : World T) : Prop := fault_free w ∧ others w = [].

(** The value the cache holds once the loaded callback has seen [v]. *)
Definition observed {T} (lf : LiveFile T) (v : T) : T :=
  match onLoaded lf with
  | Some g => g v
  | None => v
  end.

Definition loaded_events {T} (lf : LiveFile T) (v : T) : list (event T) :=
  match onLoaded lf with
  | Some _ => [ev_onLoaded v]
  | None => []
  end.

(** The bytes of the file at [p]; none when there is no file. *)
Definition disk_content {T} (w : World T) (p : string) : list byte :=
  match files w !! p with
  | Some n => content n
  | None => []
  end.

(** A decode the code does not report: no error, or [io.EOF] at input
    offset zero. *)
Definition clean {T} (r : decoded T) : Prop :=
  dec_err r = None ∨ (dec_err r = Some EOF ∧ dec_off r = 0).

(** The value [forceLoad] keeps after a decode with result [r]. *)
Definition restored {T} (d : unit → T) (r : decoded T) : T :=
  if is_EOF (dec_err r) && Nat.eqb (dec_off r) 0 then d tt else dec_val r.

(** The callbacks and the path of a controller never change. *)
Definition same_setup {T} (lf lf1 : LiveFile T) : Prop :=
  path lf1 = path lf ∧ defaultFunc lf1 = defaultFunc lf ∧
  errHandler lf1 = errHandler lf ∧ onLoaded lf1 = onLoaded lf.

Definition same_disk {T} (w w1 : World T) : Prop :=
  files w1 = files w ∧ dirs w1 = dirs w ∧ clock w1 = clock w ∧
  fault w1 = fault w ∧ others w1 = others w.

(** Calls that change the bytes of a file. *)
Definition is_write {T} (ev : event T) : bool :=
  match ev with
  | ev_io (call_Truncate _) _ _ | ev_io (call_Write _ _) _ _ => true
  | _ => false
  end.

(** Calls that create something on disk. *)
Definition is_create {T} (ev : event T) : bool :=
  match ev with
  | ev_io (call_OpenFile _) _ _ | ev_io call_MkdirAll _ _ => true
  | _ => false
  end.

(** [w1] continues the trace of [w] with calls that neither write nor
    create. *)
Definition extends_reading {T} (w w1 : World T) : Prop :=
  ∃ evs, trace w1 = trace w ++ evs ∧
         forallb (fun ev => negb (is_write ev) && negb (is_create ev)) evs = true.



(** ** Sequences of operations on one controller *)

Inductive step (T : Type) : Type :=
| do_View (f : T → T)
| do_Peek
| do_Update (f : T → T * option error)
| elapse (d : N)                        (* time passes *)
| overwrite (data : list byte).         (* another process writes the file *)
Arguments do_View {T}.
Arguments do_Peek {T}.
Arguments do_Update {T}.
Arguments elapse {T}.
Arguments overwrite {T}.

Definition run_step {T} `{JSON T} (s : step T) : M T unit :=
  match s with
  | do_View f => View f
  | do_Peek => Peek ;; ret tt
  | do_Update f => Update f ;; ret tt
  | elapse d => fun lf w =>
      Done tt lf (mk_World (files w) (dirs w) (clock w + Z.of_N d)%Z (fault w)
                           (others w) (calls w) (trace w))
  | overwrite data => fun lf w =>
      Done tt lf (set_files (<[path lf := mk_node data (clock w)]> (files w)) w)
  end.


(** * Properties *)

(** ** Running the code symbolically *)

Lemma arrive_quiet {T} (w : World T) : others w = [] → arrive w = w.
Proof. intros Hq. unfold arrive. by rewrite Hq. Qed.

Lemma bind_Done {T A B} (m : M T A) (k : A → M T B) lf w a lf1 w1 :
  m lf w = Done a lf1 w1 → bind m k lf w = k a lf1 w1.
Proof. intros Hm. unfold bind. by rewrite Hm. Qed.


Ltac go_unfold :=
  unfold bind, ret, raise,
    fs_Open, fs_OpenFile, fs_MkdirAll, file_Stat, file_Seek, file_Truncate,
    file_Write, file_Sync, file_Close, defer_Close, decoder_Decode,
    encoder_Encode, call_errHandler, assign_default, call_onLoaded,
    call_view, call_update in *.

Ltac go_simpl :=
  cbn [called note set_files set_dirs
       files dirs clock fault others calls trace
       name offset writable Size ModTime content mtime fst snd
       path lastModTime cached defaultFunc errHandler onLoaded
       set_cached set_lastModTime outcome_lf outcome_world returned
       drop Nat.add] in *.

(** One step when no other process interferes. *)
Ltac quiet_step Hq :=
  rewrite ?arrive_quiet in * by (go_simpl; exact Hq); go_simpl; rewrite ?drop_0 in *.

(** Every path of a piece of code, whatever fails. *)
Ltac all_paths Hq :=
  go_unfold;
  repeat first [ progress quiet_step Hq | case_match; simplify_eq ].

Ltac trace_grows :=
  match goal with
  | |- extends_reading _ _ =>
      unfold extends_reading; go_simpl;
      first [ by (exists []; rewrite app_nil_r)
            | by (eexists; split; [rewrite <- ?app_assoc; reflexivity | reflexivity]) ]
  end.

(** ** What the freshness check leaves alone *)

Lemma extends_reading_refl {T} (w : World T) : extends_reading w w.
Proof. exists []. by rewrite app_nil_r. Qed.

Lemma extends_reading_trans {T} (w1 w2 w3 : World T) :
  extends_reading w1 w2 → extends_reading w2 w3 → extends_reading w1 w3.
Proof.
  intros [e1 [H1 F1]] [e2 [H2 F2]]. exists (e1 ++ e2). split.
  - by rewrite H2, H1, app_assoc.
  - rewrite forallb_app. by rewrite F1, F2.
Qed.

Lemma extends_reading_called {T} (w w1 : World T) c p err :
  extends_reading w w1 → is_write (ev_io (T:=T) c p err) = false →
  is_create (ev_io (T:=T) c p err) = false →
  extends_reading w (called c p err w1).
Proof.
  intros Hw Hc1 Hc2. eapply extends_reading_trans; [exact Hw|].
  exists [ev_io c p err]. split; [done|]. cbn [forallb]. by rewrite Hc1, Hc2.
Qed.

Lemma same_setup_refl {T} (lf : LiveFile T) : same_setup lf lf.
Proof. by repeat split. Qed.

Lemma same_setup_trans {T} (a b c : LiveFile T) :
  same_setup a b → same_setup b c → same_setup a c.
Proof. unfold same_setup. intros (?&?&?&?) (?&?&?&?). repeat split; congruence. Qed.

Lemma same_disk_refl {T} (w : World T) : same_disk w w.
Proof. by repeat split. Qed.

Lemma same_disk_trans {T} (a b c : World T) :
  same_disk a b → same_disk b c → same_disk a c.
Proof. unfold same_disk. intros (?&?&?&?&?) (?&?&?&?&?). repeat split; congruence. Qed.

Lemma same_disk_quiet {T} (w w1 : World T) :
  same_disk w w1 → others w = [] → others w1 = [].
Proof. intros (_&_&_&_&->). done. Qed.

Lemma same_disk_fault_free {T} (w w1 : World T) :
  same_disk w w1 → fault_free w → fault_free w1.
Proof. intros (_&_&_&Hf&_) Hff n c. rewrite Hf. apply Hff. Qed.

Lemma same_disk_calm {T} (w w1 : World T) : same_disk w w1 → calm w → calm w1.
Proof.
  intros Hd [Hff Hq]. split; [by eapply same_disk_fault_free | by eapply same_disk_quiet].
Qed.

Section frames.
Context {T : Type} `{JSON T}.

(** [forceLoad] reads: it changes no file, and nothing of the controller
    but the cached value. *)
Lemma forceLoad_frame (file : File) (lf : LiveFile T) (w : World T) :
  others w = [] →
  let o := forceLoad file lf w in
  same_setup lf (outcome_lf o) ∧ same_disk w (outcome_world o) ∧
  lastModTime (outcome_lf o) = lastModTime lf ∧
  extends_reading w (outcome_world o) ∧
  (∀ file', returned o = Some file' → name file' = name file).
Proof.
  intros Hq. unfold forceLoad. all_paths Hq.
  all: unfold same_setup, same_disk; go_simpl.
  all: repeat split; try done; try trace_grows.
  all: by intros ? [= <-].
Qed.

Lemma After_irrefl (t : Z) : After t t = false.
Proof. unfold After. apply Z.ltb_irrefl. Qed.

Lemma Size_zero_nil (l : list byte) : (Z.of_nat (length l) =? 0)%Z = true ↔ l = [].
Proof.
  rewrite Z.eqb_eq. destruct l; cbn [length]; split; try done; lia.
Qed.

(** [loadIfUpdated] reads too; the recorded time stays or moves forward to
    the time of the file, and a check that returns leaves no newer file
    content unread. *)
Lemma loadIfUpdated_frame (file : File) (lf : LiveFile T) (w : World T) :
  others w = [] →
  let o := loadIfUpdated file lf w in
  same_setup lf (outcome_lf o) ∧ same_disk w (outcome_world o) ∧
  extends_reading w (outcome_world o) ∧
  (∀ file', returned o = Some file' → name file' = name file) ∧
  (lastModTime (outcome_lf o) = lastModTime lf ∨
   ∃ n, files w !! name file = Some n ∧ lastModTime (outcome_lf o) = mtime n ∧
        (lastModTime lf < mtime n)%Z) ∧
  (∀ file' n, returned o = Some file' → files w !! name file = Some n →
      content n ≠ [] → After (mtime n) (lastModTime (outcome_lf o)) = false).
Proof.
  intros Hq. unfold loadIfUpdated. all_paths Hq.
  all: repeat match goal with
       | Hf : forceLoad ?f ?l ?w0 = _ |- _ =>
           let Hfr := fresh "Hfr" in
           pose proof (forceLoad_frame f l w0 ltac:(go_simpl; exact Hq)) as Hfr;
           rewrite Hf in Hfr; cbn zeta in Hfr; go_simpl;
           destruct Hfr as (Hs & Hd & Hl & Ht & Hn); clear Hf
       end.
  all: split_and!.
  all: try (by intros ? [=]); try (by intros ? ? [=]); try (by left).
  all: try (by intros ? [= <-]).
  all: try (first [ trace_grows
                  | eapply extends_reading_trans; [|eassumption]; trace_grows ]).
  all: try (unfold same_setup, same_disk in *; go_simpl; by intuition congruence).
  all: try (right; eexists; split; [reflexivity|]; split; [done|];
            unfold After in *; rewrite ?Hl in *; by apply Z.ltb_lt).
  all: intros ? ? _ [= <-] Hne.
  all: try apply After_irrefl; try done.
  all: exfalso; apply Hne; by apply Size_zero_nil.
Qed.

(** The same for the whole freshness check. *)
Lemma ensure_frame (lf : LiveFile T) (w : World T) :
  others w = [] →
  let o := ensure lf w in
  same_setup lf (outcome_lf o) ∧ same_disk w (outcome_world o) ∧
  extends_reading w (outcome_world o) ∧
  (lastModTime (outcome_lf o) = lastModTime lf ∨
   ∃ n, files w !! path lf = Some n ∧ lastModTime (outcome_lf o) = mtime n ∧
        (lastModTime lf < mtime n)%Z) ∧
  (∀ n, returned o = Some tt → fault w (calls w) call_Open = None →
      files w !! path lf = Some n →
      content n ≠ [] → After (mtime n) (lastModTime (outcome_lf o)) = false).
Proof.
  intros Hq. unfold ensure. all_paths Hq.
  all: repeat match goal with
       | Hf : loadIfUpdated ?f ?l ?w0 = _ |- _ =>
           let Hfr := fresh "Hfr" in
           pose proof (loadIfUpdated_frame f l w0 ltac:(go_simpl; exact Hq)) as Hfr;
           rewrite Hf in Hfr; cbn zeta in Hfr; go_simpl;
           destruct Hfr as (Hs & Hd & Ht & Hn & Hl & Hz); clear Hf
       end.
  all: repeat match goal with
       | Hd : same_disk _ ?w0 |- _ =>
           progress rewrite ?(arrive_quiet w0) in *
             by (eapply same_disk_quiet; [exact Hd | go_simpl; exact Hq])
       end.
  all: split_and!.
  all: try (by apply same_setup_refl); try (by intros ? [=]); try (by left).
  all: try (by intros ? _ ? [=]); try (by intros ? _ [=]).
  all: try (first [ trace_grows
                  | eapply extends_reading_trans;
                    [eapply extends_reading_trans; [|eassumption]|]; trace_grows
                  | eapply extends_reading_trans; [|eassumption]; trace_grows ]).
  all: try (unfold same_setup, same_disk in *; go_simpl; by intuition congruence).
  all: try (intros ? _ _ [= <-] Hne; by eapply Hz).
  all: destruct Hl as [Hl | (n & Hn1 & Hn2 & Hn3)]; [by left | right; exists n].
  all: by rewrite <- Hn1.
Qed.
End frames.

(** ** Calm runs *)

Lemma calm_fault {T} (w : World T) n c : calm w → fault w n c = None.
Proof. intros [Hff _]. apply Hff. Qed.

Lemma calm_quiet {T} (w : World T) : calm w → others w = [].
Proof. by intros [_ Hq]. Qed.

Lemma calm_called {T} (w : World T) c p err : calm w → calm (called c p err w).
Proof. intros [Hff Hq]. by split. Qed.

Lemma calm_note {T} (w : World T) ev : calm w → calm (note ev w).
Proof. intros [Hff Hq]. by split. Qed.

Lemma calm_set_files {T} (w : World T) fm : calm w → calm (set_files fm w).
Proof. intros [Hff Hq]. by split. Qed.

Lemma calm_set_dirs {T} (w : World T) ds : calm w → calm (set_dirs ds w).
Proof. intros [Hff Hq]. by split. Qed.

Create HintDb calm.
#[global] Hint Resolve calm_called calm_note calm_set_files calm_set_dirs : calm.
#[global] Hint Resolve same_disk_calm : calm.

Ltac calm_step :=
  rewrite ?arrive_quiet by (apply calm_quiet; eauto 12 with calm);
  go_simpl; rewrite ?drop_0;
  rewrite ?calm_fault by (eauto 12 with calm).

Ltac calm_go := go_unfold; repeat (progress calm_step).

Section calm_runs.
Context {T : Type} `{JSON T}.

(** A decode that [forceLoad] does not report, with the default function it
    needs when the decoder saw the end of the input at offset zero. *)
Lemma forceLoad_unreported (file : File) (lf : LiveFile T) (w : World T) n d :
  calm w → files w !! name file = Some n →
  let r := json_Decode (content n) (cached lf) in
  dec_err r = None ∨ (dec_err r = Some EOF ∧ dec_off r = 0 ∧ defaultFunc lf = Some d) →
  ∃ file' w',
    forceLoad file lf w
      = Done file' (set_cached (observed lf (restored d r)) lf) w' ∧
    name file' = name file ∧ same_disk w w' ∧
    trace w' = trace w ++ [ev_io (call_Seek 0) (name file) None;
                           ev_io call_Read (name file) (read_error r)]
                       ++ loaded_events lf (restored d r).
Proof.
  intros Hc Hn r Hr. unfold forceLoad. calm_go. rewrite Hn. calm_go.
  fold r. unfold restored, observed, loaded_events, read_error.
  destruct Hr as [Hr | (Hr & Ho & Hd)];
    rewrite Hr; try rewrite Ho; cbn [is_EOF andb Nat.eqb]; calm_go; rewrite ?Hd;
    calm_go; destruct (onLoaded lf) eqn:Hg; calm_go; rewrite ?Hg; calm_go.
  all: eexists _, _; split; [reflexivity|].
  all: split; [done|]; split; [by repeat split|].
  all: go_simpl; by rewrite <- ?app_assoc.
Qed.

Lemma forceLoad_clean (file : File) (lf : LiveFile T) (w : World T) n d :
  calm w → files w !! name file = Some n → defaultFunc lf = Some d →
  clean (json_Decode (content n) (cached lf)) →
  let r := json_Decode (content n) (cached lf) in
  ∃ file' w',
    forceLoad file lf w
      = Done file' (set_cached (observed lf (restored d r)) lf) w' ∧
    name file' = name file ∧ same_disk w w' ∧
    trace w' = trace w ++ [ev_io (call_Seek 0) (name file) None;
                           ev_io call_Read (name file) (read_error r)]
                       ++ loaded_events lf (restored d r).
Proof.
  intros Hc Hn Hd Hr r. apply forceLoad_unreported; [done..|].
  destruct Hr as [Hr | [Hr Ho]]; [by left | by right].
Qed.

Lemma loadIfUpdated_settled (file : File) (lf : LiveFile T) (w : World T) n :
  calm w → files w !! name file = Some n →
  content n = [] ∨ After (mtime n) (lastModTime lf) = false →
  loadIfUpdated file lf w = Done file lf (called call_Stat (name file) None w).
Proof.
  intros Hc Hn Hs. unfold loadIfUpdated. calm_go. rewrite Hn. calm_go.
  destruct Hs as [Hs | Hs].
  - rewrite Hs. reflexivity.
  - destruct (Z.of_nat (length (content n)) =? 0)%Z; [done|]. by rewrite Hs.
Qed.

End calm_runs.



Section updates.
Context {T : Type} `{JSON T}.

Lemma create_flag : Z.testbit (Z.lor O_RDWR O_CREATE) 6 = true.
Proof. reflexivity. Qed.

Lemma errors_Is_refl e : errors_Is e e = true.
Proof. destruct e; cbn [errors_Is]; by rewrite bool_decide_eq_true_2. Qed.

(** What a freshness check that returns has established, in a calm run. *)
Lemma ensure_calm_facts (lf : LiveFile T) (w : World T) lf1 w1 :
  calm w → ensure lf w = Done tt lf1 w1 →
  same_setup lf lf1 ∧ same_disk w w1 ∧ calm w1 ∧ extends_reading w w1 ∧
  (lastModTime lf ≤ lastModTime lf1)%Z ∧
  (∀ n, files w !! path lf = Some n →
        content n = [] ∨ After (mtime n) (lastModTime lf1) = false).
Proof.
  intros Hc He. pose proof (ensure_frame lf w (calm_quiet _ Hc)) as Hfr.
  rewrite He in Hfr. cbn zeta in Hfr. go_simpl.
  destruct Hfr as (Hs & Hd & Ht & Hl & Hz).
  split_and!; try done.
  - by eapply same_disk_calm.
  - destruct Hl as [-> | (n & _ & -> & Hlt)]; lia.
  - intros n Hn. destruct (content n) eqn:Hcn; [by left | right].
    apply Hz; try done.
    + by apply calm_fault.
    + by rewrite Hcn.
Qed.

(** In a calm run [Update] always gets its file: the one that exists, or
    an empty one it creates, after creating the directory if need be. *)
Lemma Update_open_calm (lf : LiveFile T) (w : World T) :
  calm w →
  ∃ w' evs,
    Update_open lf w = Done (inr (mk_File (path lf) 0 true)) lf w' ∧
    files w' = match files w !! path lf with
               | Some _ => files w
               | None => <[path lf := mk_node [] (clock w)]> (files w)
               end ∧
    (files w !! path lf = None → path_Dir (path lf) ∈ dirs w') ∧
    clock w' = clock w ∧ fault w' = fault w ∧ others w' = others w ∧
    trace w' = trace w ++ evs ∧
    forallb (fun ev => negb (is_write ev)) evs = true.
Proof.
  intros Hc. unfold Update_open. calm_go.
  destruct (files w !! path lf) as [n|] eqn:Hn.
  - calm_go. eexists _, [_]. by split_and!.
  - rewrite create_flag. cbn [andb].
    destruct (bool_decide (path_Dir (path lf) ∈ dirs w)) eqn:Hdir.
    + calm_go. eexists _, [_]. split_and!; try done. intros _.
      go_simpl. by apply bool_decide_eq_true in Hdir.
    + calm_go. rewrite errors_Is_refl. calm_go. rewrite Hn, ?create_flag. cbn [andb].
      rewrite bool_decide_eq_true_2 by set_solver. calm_go.
      eexists _, [_; _; _]. split_and!; try done.
      * intros _. go_simpl. set_solver.
      * go_simpl. by rewrite <- !app_assoc.
      * reflexivity.
Qed.

(** The failing branch of [Update], once the file is open. *)
Lemma Update_file_fails_calm (lf : LiveFile T) (w : World T) f e d n :
  calm w → defaultFunc lf = Some d → (∀ v, snd (f v) = Some e) →
  files w !! path lf = Some n →
  content n = [] ∨ After (mtime n) (lastModTime lf) = false →
  (∀ cur, clean (json_Decode (content n) cur)) →
  let r := json_Decode (content n) (fst (f (cached lf))) in
  ∃ w',
    defer_Close (mk_File (path lf) 0 true)
                (Update_file f (mk_File (path lf) 0 true)) lf w
      = Done (Some e) (set_cached (observed lf (restored d r)) lf) w' ∧
    same_disk w w' ∧
    trace w' = trace w ++ [ev_io call_Stat (path lf) None;
                           ev_io (call_Seek 0) (path lf) None;
                           ev_io call_Read (path lf) (read_error r)]
                 ++ loaded_events lf (restored d r)
                 ++ [ev_io call_Close (path lf) None].
Proof.
  intros Hc Hd Hf Hn Hsettled Hclean r.
  unfold defer_Close, Update_file.
  rewrite (bind_Done _ _ _ _ _ _ _
             (loadIfUpdated_settled (mk_File (path lf) 0 true) lf w n Hc Hn Hsettled)).
  calm_go. rewrite Hf. calm_go.
  edestruct (forceLoad_clean (mk_File (path lf) 0 true)
               (set_cached (f (cached lf)).1 lf)
               (called call_Stat (path lf) None w))
    as (file' & w2 & Hfl & Hnm & Hdk2 & Htr2);
    [ eauto 12 with calm | go_simpl; exact Hn | go_simpl; exact Hd
    | go_simpl; apply Hclean | ].
  go_simpl. fold r in Hfl, Htr2. rewrite Hfl.
  assert (Hc2 : calm w2) by eauto 12 with calm.
  calm_go. eexists. split_and!.
  - reflexivity.
  - destruct Hdk2 as (?&?&?&?&?). go_simpl. by repeat split.
  - go_simpl. rewrite Htr2. go_simpl. unfold loaded_events. go_simpl.
    by rewrite <- !app_assoc.
Qed.


(** A failing update in a calm run, from the freshness check on. *)
Lemma failed_Update_calm (lf : LiveFile T) (w : World T) f e d lf1 w1 :
  calm w → defaultFunc lf = Some d → (∀ v, snd (f v) = Some e) →
  ensure lf w = Done tt lf1 w1 →
  (∀ cur, clean (json_Decode (disk_content w (path lf)) cur)) →
  let r := json_Decode (disk_content w (path lf)) (fst (f (cached lf1))) in
  ∃ w' evs,
    Update f lf w = Done (Some e) (set_cached (observed lf (restored d r)) lf1) w' ∧
    files w' = match files w !! path lf with
               | Some _ => files w
               | None => <[path lf := mk_node [] (clock w)]> (files w)
               end ∧
    (files w !! path lf = None → path_Dir (path lf) ∈ dirs w') ∧
    clock w' = clock w ∧ fault w' = fault w ∧ others w' = others w ∧
    trace w' = trace w ++ evs
                 ++ [ev_io (call_Seek 0) (path lf) None;
                     ev_io call_Read (path lf) (read_error r)]
                 ++ loaded_events lf (restored d r)
                 ++ [ev_io call_Close (path lf) None] ∧
    forallb (fun ev => negb (is_write ev)) evs = true.
Proof.
  intros Hc Hd Hf He Hclean r.
  destruct (ensure_calm_facts lf w lf1 w1 Hc He) as (Hs & Hdk & Hc1 & Ht & Hl & Hz).
  destruct Hs as (Hp & Hdf & Heh & Hol). destruct Hdk as (Hfi & Hdi & Hcl & Hfa & Hot).
  destruct Ht as (evs1 & Htr1 & Hev1).
  unfold Update. rewrite (bind_Done _ _ _ _ _ _ _ He).
  destruct (Update_open_calm lf1 w1 Hc1) as (w2 & evs2 & Hop & Hfi2 & Hdi2 & Hcl2 & Hfa2 & Hot2 & Htr2 & Hev2).
  rewrite (bind_Done _ _ _ _ _ _ _ Hop). rewrite Hp in *. rewrite Hfi in *.
  assert (Hc2 : calm w2).
  { destruct Hc1 as [Hff1 Hq1]. split; [intros ? ?; rewrite Hfa2; apply Hff1 | congruence]. }
  assert (Hn2 : ∃ n, files w2 !! path lf = Some n ∧ content n = disk_content w (path lf) ∧
                     (content n = [] ∨ After (mtime n) (lastModTime lf1) = false)).
  { unfold disk_content. rewrite Hfi2. destruct (files w !! path lf) as [n|] eqn:Hn.
    - exists n. split_and!; [done..|by apply Hz].
    - eexists. rewrite lookup_insert_eq. split_and!; [done..|by left]. }
  destruct Hn2 as (n & Hn2 & Hcont & Hsettled).
  edestruct (Update_file_fails_calm lf1 w2 f e d n) as (w3 & Hup & Hdk3 & Htr3);
    [ done | congruence | done | by rewrite Hp | done | rewrite Hcont; apply Hclean | ].
  rewrite Hp, Hcont in Hup, Htr3. fold r in Hup, Htr3.
  rewrite Hup. destruct Hdk3 as (Hfi3 & Hdi3 & Hcl3 & Hfa3 & Hot3).
  exists w3, (evs1 ++ evs2 ++ [ev_io call_Stat (path lf) None]). split_and!.
  - unfold observed. by rewrite Hol.
  - by rewrite Hfi3, Hfi2, Hcl.
  - intros Hno. rewrite Hdi3. by apply Hdi2.
  - congruence.
  - congruence.
  - congruence.
  - rewrite Htr3, Htr2, Htr1. unfold loaded_events. rewrite Hol.
    rewrite <- !app_assoc. reflexivity.
  - rewrite !forallb_app. rewrite Hev2. cbn [forallb is_write negb andb].
    rewrite andb_true_r.
    apply forallb_forall. intros ev Hin.
    rewrite forallb_forall in Hev1. specialize (Hev1 ev Hin).
    by apply andb_true_iff in Hev1 as [-> _].
Qed.

End updates.

Section freshness.
Context {T : Type} `{JSON T}.

Lemma ensure_absent (lf : LiveFile T) (w : World T) :
  calm w → files w !! path lf = None →
  ensure lf w = Done tt lf (called call_Open (path lf) (Some ErrNotExist) w).
Proof.
  intros Hc Hno. unfold ensure. calm_go. by rewrite Hno.
Qed.

Lemma ensure_settled (lf : LiveFile T) (w : World T) n :
  calm w → files w !! path lf = Some n →
  content n = [] ∨ After (mtime n) (lastModTime lf) = false →
  ensure lf w
    = Done tt lf (called call_Close (path lf) None
                    (called call_Stat (path lf) None
                       (called call_Open (path lf) None w))).
Proof.
  intros Hc Hn Hs. unfold ensure. calm_go. rewrite Hn. calm_go.
  erewrite loadIfUpdated_settled; [ | eauto with calm | go_simpl; exact Hn | exact Hs ].
  by calm_go.
Qed.

Lemma ensure_reloads (lf : LiveFile T) (w : World T) n d :
  calm w → files w !! path lf = Some n →
  content n ≠ [] → After (mtime n) (lastModTime lf) = true →
  let r := json_Decode (content n) (cached lf) in
  dec_err r = None ∨ (dec_err r = Some EOF ∧ dec_off r = 0 ∧ defaultFunc lf = Some d) →
  ∃ w',
    ensure lf w
      = Done tt (set_lastModTime (mtime n)
                   (set_cached (observed lf (restored d r)) lf)) w' ∧
    same_disk w w' ∧
    trace w' = trace w ++ [ev_io call_Open (path lf) None;
                           ev_io call_Stat (path lf) None;
                           ev_io (call_Seek 0) (path lf) None;
                           ev_io call_Read (path lf) (read_error r)]
                 ++ loaded_events lf (restored d r)
                 ++ [ev_io call_Close (path lf) None].
Proof.
  intros Hc Hn Hne Haf r Hcl. unfold ensure, loadIfUpdated.
  calm_go. rewrite Hn. calm_go. rewrite Hn. calm_go.
  destruct (Z.of_nat (length (content n)) =? 0)%Z eqn:Hsz.
  { exfalso. apply Hne. by apply Size_zero_nil. }
  rewrite Haf.
  edestruct (forceLoad_unreported (mk_File (path lf) 0 false) lf
               (called call_Stat (path lf) None (called call_Open (path lf) None w)))
    as (file' & w2 & Hfl & Hnm & Hdk2 & Htr2);
    [ eauto 12 with calm | go_simpl; exact Hn | exact Hcl | ].
  fold r in Hfl, Htr2. rewrite Hfl.
  assert (Hc2 : calm w2) by eauto 12 with calm.
  calm_go. rewrite Hnm. eexists. split_and!.
  - reflexivity.
  - destruct Hdk2 as (?&?&?&?&?). go_simpl. by repeat split.
  - go_simpl. rewrite Htr2. go_simpl. by rewrite <- !app_assoc.
Qed.
End freshness.

(** ** Construction *)

Section construction.
Context {T : Type} `{JSON T}.

Lemma apply_Opt_fixed (lf : LiveFile T) (opt : Opt T) :
  path (apply_Opt lf opt) = path lf ∧
  lastModTime (apply_Opt lf opt) = lastModTime lf.
Proof. by destruct opt. Qed.

Lemma fold_Opt_fixed (opts : list (Opt T)) (lf : LiveFile T) :
  path (fold_left apply_Opt opts lf) = path lf ∧
  lastModTime (fold_left apply_Opt opts lf) = lastModTime lf.
Proof.
  revert lf. induction opts as [|opt opts IH]; intros lf; [done|].
  cbn [fold_left]. destruct (IH (apply_Opt lf opt)) as [-> ->].
  apply apply_Opt_fixed.
Qed.

(** A controller from [New] has a default function, holds the value it
    produces, and has recorded no modification time. *)
Lemma New_facts (BaseDir p : string) (opts : list (Opt T)) :
  ∃ d, defaultFunc (New BaseDir p opts) = Some d ∧
       cached (New BaseDir p opts) = d tt ∧
       lastModTime (New BaseDir p opts) = zero_Time.
Proof.
  unfold New.
  set (p' := if negb (filepath_IsAbs p) && negb (String.eqb BaseDir "")
             then filepath_Join BaseDir p else p).
  set (lf0 := mk_LiveFile p' zero_Time zero None DefaultErrorHandler None).
  destruct (fold_Opt_fixed opts lf0) as [_ Hl].
  destruct (defaultFunc (fold_left apply_Opt opts lf0)) as [d|] eqn:Hd.
  - rewrite Hd. exists d. by split_and!.
  - cbn [set_defaultFunc defaultFunc]. eexists. by split_and!.
Qed.

Lemma New_last_default (BaseDir p : string) (opts : list (Opt T)) (d : unit → T) :
  defaultFunc (New BaseDir p (opts ++ [WithDefault d])) = Some d.
Proof.
  unfold New. rewrite fold_left_app. cbn [fold_left apply_Opt set_defaultFunc defaultFunc].
  reflexivity.
Qed.
End construction.

(** ** The recorded modification time *)


Section time_stamps.
Context {T : Type} `{JSON T}.









End time_stamps.

(** * The specification, claim by claim *)




(** C2 does not hold on every update that succeeds. The file holds [true];
    a fresh controller runs an update that stores [false]; after the
    freshness check has closed its handle and before the update opens its
    own, another process rewrites the file. The update then reloads through
    its read-write handle, which leaves the offset of that handle after the
    five bytes it read; [Truncate(0)] does not move the offset, so the
    encoder writes at offset 5 and the file becomes five zero bytes
    followed by the text. The call returns success, and the next controller
    over the path panics on the content. *)
Theorem C2_raced_update_writes_past_offset_zero :
  let o := Update (store false) controller raced_disk in
  returned o = Some None ∧
  In (ev_io (call_Write 5 (list_byte_of_string "false" ++ [x0a])) state_json None)
     (trace (outcome_world o)) ∧
  disk_content (outcome_world o) state_json
    = replicate 5 x00 ++ list_byte_of_string "false" ++ [x0a] ∧
  Peek controller (outcome_world o)
    = Panicked (PanicErr (Errorf "invalid JSON" (Other "invalid character")))
               (outcome_lf (Peek controller (outcome_world o)))
               (outcome_world (Peek controller (outcome_world o))).
Proof.
  vm_compute. split_and!; try reflexivity.
  do 10 right. left. reflexivity.
Qed.

(** C3. For every value [V] and path [P] with no file behind it, a
    controller built by [New] with the default function returning [V] holds
    [V]. [New] is a function of its arguments alone: it takes no world, so
    it performs no file I/O. In a calm run the snapshot [Peek] that follows
    returns [V], and neither that snapshot nor a [View] creates the file:
    the only call either makes is the [Open] that reports the file missing,
    and the files and directories are those it found. *)
Theorem C3_new_controller_serves_default {T} `{JSON T}
    (V : T) (BaseDir P : string) (opts : list (Opt T)) (w : World T) :
  let lf := New BaseDir P (opts ++ [WithDefault (fun _ => V)]) in
  calm w → files w !! path lf = None →
  cached lf = V ∧
  (∃ w', Peek lf w = Done V lf w' ∧
         files w' = files w ∧ dirs w' = dirs w ∧
         trace w' = trace w ++ [ev_io call_Open (path lf) (Some ErrNotExist)]) ∧
  (∀ f, ∃ w', View f lf w = Done tt (set_cached (f V) lf) w' ∧
         files w' = files w ∧ dirs w' = dirs w ∧
         trace w' = trace w ++ [ev_io call_Open (path lf) (Some ErrNotExist)]).
Proof.
  intros lf Hc Hno.
  assert (HV : cached lf = V).
  { destruct (New_facts BaseDir P (opts ++ [WithDefault (fun _ => V)]))
      as (d & Hd & Hcd & _).
    unfold lf. rewrite Hcd. rewrite New_last_default in Hd. by injection Hd as <-. }
  split; [exact HV|]. split.
  - eexists. unfold Peek. rewrite (bind_Done _ _ _ _ _ _ _ (ensure_absent lf w Hc Hno)).
    rewrite HV. by split_and!.
  - intros f. eexists. unfold View.
    rewrite (bind_Done _ _ _ _ _ _ _ (ensure_absent lf w Hc Hno)).
    unfold call_view. rewrite HV. by split_and!.
Qed.

Lemma C3_witness :
  returned (Peek controller fresh_disk) = Some false ∧
  files (outcome_world (Peek controller fresh_disk)) !! state_json = None.
Proof.
  destruct (C3_new_controller_serves_default false "" state_json [] fresh_disk
              (conj (fun _ _ => eq_refl) eq_refl) eq_refl)
    as (_ & (w' & Hp & Hf & _) & _).
  change (New "" state_json ([] ++ [WithDefault (fun _ => false)])) with controller in Hp.
  rewrite Hp. cbn [returned outcome_world]. rewrite Hf. split; reflexivity.
Defined.

(** C4. The freshness check [ensure], in a calm run. (1) No file: the
    controller is unchanged and the error handler is not called. (2) A file
    of size zero: nothing is loaded, the controller is unchanged. (3) A
    file with content whose modification time is strictly after the
    recorded one and whose content decodes without error: the whole content
    is decoded into the cached value (which the loaded callback, if any,
    then sees) and the recorded time becomes the time of the file.
    (4) Otherwise the controller is unchanged. *)
Theorem C4_ensure_reloads_only_newer_content {T} `{JSON T}
    (lf : LiveFile T) (w : World T) :
  calm w →
  (files w !! path lf = None →
     ∃ w', ensure lf w = Done tt lf w' ∧
           trace w' = trace w ++ [ev_io call_Open (path lf) (Some ErrNotExist)]) ∧
  (∀ n, files w !! path lf = Some n → content n = [] →
     ∃ w', ensure lf w = Done tt lf w' ∧
           trace w' = trace w ++ [ev_io call_Open (path lf) None;
                                  ev_io call_Stat (path lf) None;
                                  ev_io call_Close (path lf) None]) ∧
  (∀ n, files w !! path lf = Some n → content n ≠ [] →
     After (mtime n) (lastModTime lf) = true →
     dec_err (json_Decode (content n) (cached lf)) = None →
     ∃ w', ensure lf w
             = Done tt (set_lastModTime (mtime n)
                          (set_cached
                             (observed lf (dec_val (json_Decode (content n) (cached lf))))
                             lf)) w' ∧
           files w' = files w ∧
           trace w' = trace w ++ [ev_io call_Open (path lf) None;
                                  ev_io call_Stat (path lf) None;
                                  ev_io (call_Seek 0) (path lf) None;
                                  ev_io call_Read (path lf) None]
                        ++ loaded_events lf (dec_val (json_Decode (content n) (cached lf)))
                        ++ [ev_io call_Close (path lf) None]) ∧
  (∀ n, files w !! path lf = Some n → content n ≠ [] →
     After (mtime n) (lastModTime lf) = false →
     ∃ w', ensure lf w = Done tt lf w' ∧
           trace w' = trace w ++ [ev_io call_Open (path lf) None;
                                  ev_io call_Stat (path lf) None;
                                  ev_io call_Close (path lf) None]).
Proof.
  intros Hc. split_and!.
  - intros Hno. eexists. split; [by apply ensure_absent|done].
  - intros n Hn Hcn. eexists. split; [eapply ensure_settled; eauto|].
    go_simpl. by rewrite <- !app_assoc.
  - intros n Hn Hne Haf Herr.
    destruct (ensure_reloads lf w n (fun _ => cached lf) Hc Hn Hne Haf (or_introl Herr))
      as (w' & He & Hdk & Htr).
    unfold restored, read_error in He, Htr. rewrite Herr in He, Htr.
    cbn [is_EOF andb] in He, Htr.
    exists w'. split_and!; [done| by destruct Hdk |done].
  - intros n Hn Hne Haf. eexists. split; [eapply ensure_settled; eauto|].
    go_simpl. by rewrite <- !app_assoc.
Qed.

Lemma C4_witness :
  returned (ensure controller fresh_disk) = Some tt ∧
  cached (outcome_lf (ensure controller saved_disk)) = true ∧
  lastModTime (outcome_lf (ensure controller saved_disk)) = 500%Z.
Proof.
  pose proof (C4_ensure_reloads_only_newer_content controller fresh_disk
                (conj (fun _ _ => eq_refl) eq_refl)) as (Habsent & _).
  pose proof (C4_ensure_reloads_only_newer_content controller saved_disk
                (conj (fun _ _ => eq_refl) eq_refl)) as (_ & _ & Hnew & _).
  destruct (Habsent eq_refl) as (w1 & He1 & _).
  destruct (Hnew (mk_node (list_byte_of_string "true" ++ [x0a]) 500)
              eq_refl ltac:(discriminate) eq_refl eq_refl) as (w2 & He2 & _).
  rewrite He1, He2. repeat split.
Defined.

(** C5. In a calm run of [forceLoad], if decoding the file reports [io.EOF]
    with input offset zero, the error handler is not called: the call
    returns, the cached value is the value the default function produces
    (which the loaded callback, if any, then sees), and the only events are
    the seek, the read and the callback. *)
Theorem C5_EOF_at_offset_zero_loads_default {T} `{JSON T}
    (file : File) (lf : LiveFile T) (w : World T) (n : file_node) (d : unit → T) :
  calm w → files w !! name file = Some n → defaultFunc lf = Some d →
  dec_err (json_Decode (content n) (cached lf)) = Some EOF →
  dec_off (json_Decode (content n) (cached lf)) = 0 →
  ∃ file' w',
    forceLoad file lf w = Done file' (set_cached (observed lf (d tt)) lf) w' ∧
    trace w' = trace w ++ [ev_io (call_Seek 0) (name file) None;
                           ev_io call_Read (name file) (Some EOF)]
                 ++ loaded_events lf (d tt).
Proof.
  intros Hc Hn Hd Herr Hoff.
  destruct (forceLoad_clean file lf w n d Hc Hn Hd (or_intror (conj Herr Hoff)))
    as (file' & w' & Hfl & _ & _ & Htr).
  unfold restored, read_error in Hfl, Htr. rewrite Herr, Hoff in Hfl, Htr.
  cbn [is_EOF andb Nat.eqb] in Hfl, Htr. by exists file', w'.
Qed.

Lemma C5_witness :
  cached (outcome_lf (forceLoad (mk_File state_json 0 false)
                        (set_cached true controller) blank_disk)) = false.
Proof.
  destruct (C5_EOF_at_offset_zero_loads_default (H:=bool_JSON) (mk_File state_json 0 false)
              (set_cached true controller) blank_disk (mk_node [x0a] 500) (fun _ => false)
              (conj (fun _ _ => eq_refl) eq_refl) eq_refl eq_refl eq_refl eq_refl)
    as (file' & w' & Hfl & _).
  rewrite Hfl. reflexivity.
Defined.

(** C6 does not hold for a failed [Stat]: when the file opens, [Stat] fails
    and the error handler returns, the freshness check goes on to call
    [Size] on the nil [FileInfo], and the operation ends in the panic of a
    nil dereference after the handler has been told of the failure. *)
Theorem C6_failed_stat_ends_in_nil_dereference {T} `{JSON T}
    (lf : LiveFile T) (w : World T) (n : file_node) (e : error) :
  others w = [] →
  fault w (calls w) call_Open = None →
  files w !! path lf = Some n →
  fault w (S (calls w)) call_Stat = Some e →
  errHandler lf (Errorf "stat failed" e) = Returns →
  ∃ w', Peek lf w = Panicked NilDereference lf w' ∧
        trace w' = trace w ++ [ev_io call_Open (path lf) None;
                               ev_io call_Stat (path lf) (Some e);
                               ev_errHandler (Errorf "stat failed" e)].
Proof.
  intros Hq Hopen Hn Hstat Hh. unfold Peek, ensure, loadIfUpdated.
  go_unfold. repeat (progress quiet_step Hq). rewrite Hopen, Hn.
  repeat (progress quiet_step Hq). rewrite Hstat.
  repeat (progress quiet_step Hq). rewrite Hh.
  eexists. split; [reflexivity|]. go_simpl. by rewrite <- !app_assoc.
Qed.

Lemma C6_witness :
  Peek lenient_controller broken_stat_disk
    = Panicked NilDereference lenient_controller
               (outcome_world (Peek lenient_controller broken_stat_disk)).
Proof.
  destruct (C6_failed_stat_ends_in_nil_dereference (H:=bool_JSON)
              lenient_controller broken_stat_disk
              (mk_node (list_byte_of_string "true" ++ [x0a]) 500)
              (Other "input/output error")
              eq_refl eq_refl eq_refl eq_refl eq_refl)
    as (w' & Hp & _).
  rewrite Hp. reflexivity.
Defined.






(** C9. A transactional update over a path with no file, whose function
    fails, in a calm run: when the call is over (also if the rollback
    panicked) the file exists, is empty, and carries the time of its
    creation; its directory exists; no call truncated or wrote. With a
    default function and a decoder that reports the empty file as such, the
    call returns the failure of the function. *)
Theorem C9_failed_update_leaves_empty_file {T} `{JSON T}
    (lf : LiveFile T) (w : World T) (f : T → T * option error) (e : error) :
  calm w → files w !! path lf = None → (∀ v, snd (f v) = Some e) →
  let o := Update f lf w in
  files (outcome_world o) !! path lf = Some (mk_node [] (clock w)) ∧
  path_Dir (path lf) ∈ dirs (outcome_world o) ∧
  (∃ evs, trace (outcome_world o) = trace w ++ evs ∧
          forallb (fun ev => negb (is_write ev)) evs = true) ∧
  (∀ d, defaultFunc lf = Some d → (∀ cur, clean (json_Decode [] cur)) →
        returned o = Some (Some e)).
Proof.
  intros Hc Hno Hf o.
  pose proof (ensure_absent lf w Hc Hno) as He.
  set (w1 := called call_Open (path lf) (Some ErrNotExist) w) in He.
  assert (Hc1 : calm w1) by (unfold w1; eauto with calm).
  destruct (Update_open_calm lf w1 Hc1)
    as (w2 & evs2 & Hop & Hfi2 & Hdi2 & Hcl2 & Hfa2 & Hot2 & Htr2 & Hev2).
  assert (Hc2 : calm w2).
  { destruct Hc1 as [Hff1 Hq1]. split; [intros ? ?; rewrite Hfa2; apply Hff1 | congruence]. }
  assert (Hno1 : files w1 !! path lf = None) by exact Hno.
  rewrite Hno1 in Hfi2. specialize (Hdi2 Hno1).
  assert (Hn2 : files w2 !! path lf = Some (mk_node [] (clock w))).
  { rewrite Hfi2. apply lookup_insert_eq. }
  assert (Ho : o = defer_Close (mk_File (path lf) 0 true)
                     (Update_file f (mk_File (path lf) 0 true)) lf w2).
  { unfold o, Update. rewrite (bind_Done _ _ _ _ _ _ _ He).
    by rewrite (bind_Done _ _ _ _ _ _ _ Hop). }
  split_and!.
  - rewrite Ho. unfold defer_Close, Update_file.
    rewrite (bind_Done _ _ _ _ _ _ _
               (loadIfUpdated_settled (mk_File (path lf) 0 true) lf w2 _ Hc2 Hn2
                  (or_introl eq_refl))).
    calm_go. rewrite Hf.
    pose proof (forceLoad_frame (mk_File (path lf) 0 true)
                  (set_cached (f (cached lf)).1 lf)
                  (called call_Stat (path lf) None w2) (calm_quiet _ Hc2)) as Hfr.
    cbn zeta in Hfr. destruct Hfr as (_ & Hdk & _ & _ & _).
    destruct (forceLoad _ _ _) as [a lf3 w3 | p lf3 w3];
      destruct Hdk as (Hfi3 & _ & _ & _ & Hot3);
      rewrite (arrive_quiet w3) by (go_simpl; rewrite Hot3; exact (calm_quiet _ Hc2));
      go_simpl; by rewrite Hfi3.
  - rewrite Ho. unfold defer_Close, Update_file.
    rewrite (bind_Done _ _ _ _ _ _ _
               (loadIfUpdated_settled (mk_File (path lf) 0 true) lf w2 _ Hc2 Hn2
                  (or_introl eq_refl))).
    calm_go. rewrite Hf.
    pose proof (forceLoad_frame (mk_File (path lf) 0 true)
                  (set_cached (f (cached lf)).1 lf)
                  (called call_Stat (path lf) None w2) (calm_quiet _ Hc2)) as Hfr.
    cbn zeta in Hfr. destruct Hfr as (_ & Hdk & _ & _ & _).
    destruct (forceLoad _ _ _) as [a lf3 w3 | p lf3 w3];
      destruct Hdk as (_ & Hdi3 & _ & _ & Hot3);
      rewrite (arrive_quiet w3) by (go_simpl; rewrite Hot3; exact (calm_quiet _ Hc2));
      go_simpl; by rewrite Hdi3.
  - rewrite Ho. unfold defer_Close, Update_file.
    rewrite (bind_Done _ _ _ _ _ _ _
               (loadIfUpdated_settled (mk_File (path lf) 0 true) lf w2 _ Hc2 Hn2
                  (or_introl eq_refl))).
    calm_go. rewrite Hf.
    pose proof (forceLoad_frame (mk_File (path lf) 0 true)
                  (set_cached (f (cached lf)).1 lf)
                  (called call_Stat (path lf) None w2) (calm_quiet _ Hc2)) as Hfr.
    cbn zeta in Hfr. destruct Hfr as (_ & Hdk & _ & (evs3 & Htr3 & Hev3) & _).
    exists ([ev_io call_Open (path lf) (Some ErrNotExist)] ++ evs2
              ++ [ev_io call_Stat (path lf) None] ++ evs3
              ++ [ev_io call_Close (path lf) None]).
    split.
    + destruct (forceLoad _ _ _) as [a lf3 w3 | p lf3 w3];
        destruct Hdk as (_ & _ & _ & Hfa3 & Hot3);
        rewrite (arrive_quiet w3) by (go_simpl; rewrite Hot3; exact (calm_quiet _ Hc2));
        go_simpl; rewrite Htr3, Hfa3; go_simpl; rewrite Htr2; unfold w1; go_simpl;
        rewrite (calm_fault _ _ _ Hc2); by rewrite <- !app_assoc.
    + rewrite !forallb_app, Hev2. cbn [forallb is_write negb andb].
      rewrite andb_true_r. apply forallb_forall. intros ev Hin.
      rewrite forallb_forall in Hev3. specialize (Hev3 ev Hin).
      by apply andb_true_iff in Hev3 as [-> _].
  - intros d Hd Hclean.
    destruct (failed_Update_calm lf w f e d lf w1 Hc Hd Hf He) as (w' & evs & Hup & _).
    { unfold disk_content. by rewrite Hno. }
    unfold o. by rewrite Hup.
Qed.

Lemma C9_witness :
  files (outcome_world (Update flip_and_fail controller fresh_disk)) !! state_json
    = Some (mk_node [] 1000).
Proof.
  exact (proj1 (C9_failed_update_leaves_empty_file (H:=bool_JSON)
                  controller fresh_disk flip_and_fail (Other "something failed")
                  (conj (fun _ _ => eq_refl) eq_refl) eq_refl (fun _ => eq_refl))).
Defined.

(** C10. A transactional update whose function fails, on a controller with
    a loaded callback [g], in a calm run over a file that decodes without a
    reported error: the rollback hands the restored value (the value
    decoded from the file, or the default when the decoder reports [io.EOF]
    at offset zero) to the callback, and this is the last event before the
    file is closed and the call returns the failure. *)
Theorem C10_rollback_calls_onLoaded {T} `{JSON T}
    (lf : LiveFile T) (w : World T) (f : T → T * option error) (e : error)
    (d : unit → T) (g : T → T) (lf1 : LiveFile T) (w1 : World T) :
  calm w → defaultFunc lf = Some d → onLoaded lf = Some g →
  (∀ v, snd (f v) = Some e) →
  (∀ cur, clean (json_Decode (disk_content w (path lf)) cur)) →
  ensure lf w = Done tt lf1 w1 →
  let v := restored d (json_Decode (disk_content w (path lf)) (fst (f (cached lf1)))) in
  ∃ lf' w' evs,
    Update f lf w = Done (Some e) lf' w' ∧
    cached lf' = g v ∧
    trace w' = trace w ++ evs ++ [ev_onLoaded v; ev_io call_Close (path lf) None].
Proof.
  intros Hc Hd Hg Hf Hclean He v.
  destruct (failed_Update_calm lf w f e d lf1 w1 Hc Hd Hf He Hclean)
    as (w' & evs & Hup & _ & _ & _ & _ & _ & Htr & _).
  fold v in Hup, Htr. unfold loaded_events, observed in *. rewrite Hg in *.
  eexists _, w', (evs ++ [_; _]). split_and!.
  - exact Hup.
  - reflexivity.
  - rewrite Htr. by rewrite <- !app_assoc.
Qed.

Lemma C10_witness :
  In (ev_onLoaded true)
     (trace (outcome_world (Update flip_and_fail watched_controller saved_disk))).
Proof.
  destruct (C10_rollback_calls_onLoaded (H:=bool_JSON)
              watched_controller saved_disk flip_and_fail (Other "something failed")
              (fun _ => false) (fun v => v) _ _
              (conj (fun _ _ => eq_refl) eq_refl) eq_refl eq_refl (fun _ => eq_refl)
              (fun cur => or_introl eq_refl) eq_refl)
    as (lf' & w' & evs & Hup & _ & Htr).
  rewrite Hup. cbn [outcome_world]. rewrite Htr.
  apply in_or_app. right. apply in_or_app. right. left. reflexivity.
Defined.

(** ** The scenarios of the test file, on [LiveFile[bool]] *)

(** TestFileIsntCreatedBeforeFirstUpdate: the snapshot of a new controller
    is the default and creates nothing; the first update creates the file. *)
Example file_is_not_created_before_first_update :
  let o1 := Peek controller fresh_disk in
  let o2 := Update (store true) (outcome_lf o1) (outcome_world o1) in
  returned o1 = Some false ∧
  files (outcome_world o1) !! state_json = None ∧
  returned o2 = Some None ∧
  disk_content (outcome_world o2) state_json = list_byte_of_string "true" ++ [x0a].
Proof. vm_compute. by split_and!. Qed.

(** TestUpdateErrorWillRollbackChanges: a failing update leaves the default
    when there was no file, and the stored value when there was one. *)
Example update_error_rolls_back :
  let o1 := Update flip_and_fail controller fresh_disk in
  let o2 := Peek (outcome_lf o1) (outcome_world o1) in
  let o3 := Update (store true) (outcome_lf o2) (outcome_world o2) in
  let o4 := Update flip_and_fail (outcome_lf o3) (outcome_world o3) in
  let o5 := Peek (outcome_lf o4) (outcome_world o4) in
  returned o1 = Some (Some (Other "something failed")) ∧
  returned o2 = Some false ∧
  returned o3 = Some None ∧
  returned o4 = Some (Some (Other "something failed")) ∧
  returned o5 = Some true.
Proof. vm_compute. by split_and!. Qed.

(** TestFileExists: the content of the file wins over the default. *)
Example existing_file_wins_over_default :
  returned (Peek controller saved_disk) = Some true.
Proof. reflexivity. Qed.

(** TestFileExternalChange: a file written by someone else after the first
    snapshot is seen by the next one. *)
Example external_change_is_seen :
  let o1 := Peek controller fresh_disk in
  let o2 := run_step (overwrite (list_byte_of_string "true"))
                     (outcome_lf o1) (outcome_world o1) in
  let o3 := Peek (outcome_lf o2) (outcome_world o2) in
  returned o1 = Some false ∧ returned o3 = Some true.
Proof. vm_compute. by split_and!. Qed.

(** ** Errors the handler swallows *)

(** An [Open] that fails for another reason than a missing file is given
    to the error handler; when the handler returns, the freshness check
    returns and the controller is as it was. *)
Lemma swallowed_Open_error_keeps_the_cache {T} `{JSON T}
    (lf : LiveFile T) (w : World T) (e : error) :
  others w = [] →
  fault w (calls w) call_Open = Some e →
  errors_Is e ErrNotExist = false →
  errHandler lf e = Returns →
  ∃ w', Peek lf w = Done (cached lf) lf w' ∧ files w' = files w.
Proof.
  intros Hq Hopen Hne Hh. unfold Peek, ensure.
  go_unfold. repeat (progress quiet_step Hq). rewrite Hopen.
  repeat (progress quiet_step Hq). rewrite Hne. cbn [negb]. rewrite Hh.
  by eexists.
Qed.

(** The write also lands past offset zero when the [Open] of the freshness
    check fails once and the handler swallows the error: the update then
    loads the file through its read-write handle. *)
Example swallowed_Open_error_shifts_the_write :
  let o := Update (store false) lenient_controller busy_disk in
  returned o = Some None ∧
  disk_content (outcome_world o) state_json
    = replicate 5 x00 ++ list_byte_of_string "false" ++ [x0a].
Proof. vm_compute. by split_and!. Qed.
